(** * The hotkey subsystem of src/features/hotkey.tsx

    A shallow embedding of the hotkey registry, of the two layer-lifecycle
    handlers that keep it in sync, and of the [document.onkeydown] handler
    that turns a key press into candidate key-combination strings and fires
    the matching hotkey.

    Modelling conventions.
    - A JavaScript string is a [string] of 8-bit characters; the case
      conversions map the ASCII letters and leave every other character
      as it is.
    - The [hotkeys] object is represented by its own string-keyed
      properties: a [gmap] whose values are [option]s, so that a key that is
      present and holds [undefined] ([Some None]) is told apart from a key
      that is not a property at all ([None]).  The member names a plain
      object inherits from [Object.prototype] ("toString", "__proto__" and
      the like) are not represented: a keyboard delivers no such key value
      and no hotkey is registered under one.
    - The reactive game state that computed values read and that actions
      change is an abstract type [World]; [hasWon.value] and
      [player.keepGoing] are two observations of it.
    - The side effects of the key handler ([e.preventDefault()], the call of
      [hotkey.onPress()]) are returned as a list, in the order the code
      performs them, together with the state after the call. *)

From stdpp Require Import base strings list gmap pretty.

Local Open Scope string_scope.
Local Open Scope list_scope.

(** ** The host's string and array primitives *)

Module JS.

Definition is_lower (c : Ascii.ascii) : bool :=
  let n := Ascii.N_of_ascii c in ((97 <=? n) && (n <=? 122))%N.

Definition is_upper (c : Ascii.ascii) : bool :=
  let n := Ascii.N_of_ascii c in ((65 <=? n) && (n <=? 90))%N.

Definition upper_char (c : Ascii.ascii) : Ascii.ascii :=
  if is_lower c then Ascii.ascii_of_N (Ascii.N_of_ascii c - 32) else c.

Definition lower_char (c : Ascii.ascii) : Ascii.ascii :=
  if is_upper c then Ascii.ascii_of_N (Ascii.N_of_ascii c + 32) else c.

(** [String.prototype.toUpperCase] *)
Fixpoint toUpperCase (s : string) : string :=
  match s with
  | EmptyString => EmptyString
  | String c s' => String (upper_char c) (toUpperCase s')
  end.

(** [String.prototype.toLowerCase] *)
Fixpoint toLowerCase (s : string) : string :=
  match s with
  | EmptyString => EmptyString
  | String c s' => String (lower_char c) (toLowerCase s')
  end.

(** [Array.prototype.includes], on an array of strings. *)
Definition includes (a : list string) (x : string) : bool :=
  existsb (String.eqb x) a.

Fixpoint indexOf_from (i : Z) (a : list string) (x : string) : Z :=
  match a with
  | [] => -1
  | y :: a' => if String.eqb y x then i else indexOf_from (i + 1) a' x
  end.

(** [Array.prototype.indexOf]: the first index holding [x], or [-1]. *)
Definition indexOf (a : list string) (x : string) : Z := indexOf_from 0 a x.

(** The string a number turns into when it is added to a string. *)
Definition toString (n : Z) : string := pretty n.

(** [a.push(x)] *)
Definition push (a : list string) (x : string) : list string := a ++ [x].

(** [a.splice(start, deleteCount)], the array that is left. *)
Definition splice (a : list string) (start deleteCount : nat) : list string :=
  take start a ++ drop (start + deleteCount) a.

(** [a.find(p) ?? d] *)
Definition find_or {A} (p : A → bool) (a : list A) (d : A) : A :=
  default d (find p a).

End JS.

(** ** Key-down events *)

Record HTMLElement := { tagName : string }.

Record KeyboardEvent := {
  target : option HTMLElement;   (* [null] is [None] *)
  key : string;
  shiftKey : bool;
  ctrlKey : bool
}.

Definition uppercaseNumbers : list string :=
  [")"; "!"; "@"; "#"; "$"; "%"; "^"; "&"; "*"; "("].

(** The candidate list that [document.onkeydown] builds in [keysToCheck]
    (the statements between the two gates and the registry lookup). *)
Definition keysToCheck (e : KeyboardEvent) : list string :=
  let keys := [key e] in
  if shiftKey e && ctrlKey e then
    let keys := JS.splice keys 0 1 in
    let keys := JS.push keys ("ctrl+shift+" +:+ JS.toUpperCase (key e)) in
    let keys := JS.push keys ("shift+ctrl+" +:+ JS.toUpperCase (key e)) in
    if JS.includes uppercaseNumbers (key e) then
      let keys :=
        JS.push keys ("ctrl+shift+" +:+ JS.toString (JS.indexOf uppercaseNumbers (key e))) in
      JS.push keys ("shift+ctrl+" +:+ JS.toString (JS.indexOf uppercaseNumbers (key e)))
    else
      let keys := JS.push keys ("ctrl+shift+" +:+ JS.toLowerCase (key e)) in
      JS.push keys ("shift+ctrl+" +:+ JS.toLowerCase (key e))
  else if JS.includes uppercaseNumbers (key e) then
    let keys := JS.push keys ("shift+" +:+ key e) in
    JS.push keys ("shift+" +:+ JS.toString (JS.indexOf uppercaseNumbers (key e)))
  else if shiftKey e then
    let keys := JS.push keys ("shift+" +:+ JS.toUpperCase (key e)) in
    JS.push keys ("shift+" +:+ JS.toLowerCase (key e))
  else if ctrlKey e then
    let keys := JS.splice keys 0 1 in
    JS.push keys ("ctrl+" +:+ key e)
  else keys.

(** ** Hotkeys, their registry and the handlers *)

(** What this module reads from its collaborators: the global "won" signal
    of data/projEntry and the player's preference to keep going. *)
Class Host (World : Type) := {
  hasWon_value : World → bool;       (* [hasWon.value] *)
  player_keepGoing : World → bool    (* [player.keepGoing] *)
}.

Section Hotkeys.
Context {World : Type} `{Host World}.

(** [Computable<T>] of util/computed: a plain value, a ref, or a function
    of no argument; refs and functions read the current world. *)
Inductive Computable (T : Type) :=
| Plain (v : T)
| IsRef (r : World → T)
| Getter (f : World → T).

(** [ProcessedComputable<T>]: a plain value or a ref. *)
Inductive ProcessedComputable (T : Type) :=
| Value (v : T)
| Ref (r : World → T).

Global Arguments Plain {T} v.
Global Arguments IsRef {T} r.
Global Arguments Getter {T} f.
Global Arguments Value {T} v.
Global Arguments Ref {T} r.

(** Vue's [unref], at the current world. *)
Definition unref {T} (c : ProcessedComputable T) (w : World) : T :=
  match c with
  | Value v => v
  | Ref r => r w
  end.

(** Modelled from the spec: [processComputable] of util/computed is not
    under src/.  It "replaces that field with a wrapper exposing the
    current evaluated value on demand" when the field is a deferred
    computation; a plain value stays as it is.  The argument is the value
    of the field; on an absent field nothing happens ([fmap]). *)
Definition processComputable {T} (field : Computable T) : ProcessedComputable T :=
  match field with
  | Plain v => Value v
  | IsRef r => Ref r
  | Getter f => Ref f
  end.

(** Modelled from the spec: [setDefault] of features/feature is not under
    src/.  It "sets a field to a literal default only if currently
    absent". *)
Definition setDefault {T} (field : option T) (value : T) : T :=
  match field with
  | None => value
  | Some v => v
  end.

(** [VoidFunction]: an action changes the world. *)
Definition VoidFunction := World → World.

Record HotkeyOptions := {
  opt_enabled : option (Computable bool);       (* [enabled?] *)
  opt_key : string;
  opt_description : Computable string;
  opt_onPress : VoidFunction
}.

(** [GenericHotkey]; its [type] field always holds [HotkeyType]. *)
Record GenericHotkey := {
  hotkey_key : string;
  enabled : ProcessedComputable bool;
  description : ProcessedComputable string;
  onPress : VoidFunction
}.

(** [createHotkey], on the options object that [optionsFunc] returns; the
    lazy proxy is represented by the object it builds on first access. *)
Definition createHotkey (options : HotkeyOptions) : GenericHotkey :=
  let enabled := processComputable <$> opt_enabled options in
  let enabled := setDefault enabled (Value true) in
  let description := processComputable (opt_description options) in
  {| hotkey_key := opt_key options;
     enabled := enabled;
     description := description;
     onPress := opt_onPress options |}.

(** [key in hotkeys], for the dictionary
    [hotkeys : Record<string, GenericHotkey | undefined>]. *)
Definition has_key (hotkeys : gmap string (option GenericHotkey)) (k : string) : bool :=
  bool_decide (is_Some (hotkeys !! k)).

(** [hotkeys[k]]: [undefined] ([None]) for a key that is not there and for
    a key that holds [undefined]. *)
Definition get (hotkeys : gmap string (option GenericHotkey)) (k : string)
  : option GenericHotkey :=
  match hotkeys !! k with
  | Some v => v
  | None => None
  end.

(** Modelled from the spec: [findFeatures] of features/feature is not under
    src/.  A layer is represented by the list of hotkeys that
    [findFeatures(layer, HotkeyType)] enumerates, in its order. *)
Definition findFeatures (layer : list GenericHotkey) : list GenericHotkey := layer.

(** [globalBus.on("addLayer", ...)] *)
Definition addLayer (layer : list GenericHotkey) (hotkeys : gmap string (option GenericHotkey))
  : gmap string (option GenericHotkey) :=
  foldl (λ hotkeys hotkey, <[hotkey_key hotkey := Some hotkey]> hotkeys)
        hotkeys (findFeatures layer).

(** [globalBus.on("removeLayer", ...)] *)
Definition removeLayer (layer : list GenericHotkey) (hotkeys : gmap string (option GenericHotkey))
  : gmap string (option GenericHotkey) :=
  foldl (λ hotkeys hotkey, <[hotkey_key hotkey := None]> hotkeys)
        hotkeys (findFeatures layer).

Inductive Notification :=
| LayerAdded (layer : list GenericHotkey)
| LayerRemoved (layer : list GenericHotkey).

Definition notify (hotkeys : gmap string (option GenericHotkey)) (n : Notification)
  : gmap string (option GenericHotkey) :=
  match n with
  | LayerAdded layer => addLayer layer hotkeys
  | LayerRemoved layer => removeLayer layer hotkeys
  end.

(** The registry after a sequence of notifications, oldest first. *)
Definition notify_all (ns : list Notification) (hotkeys : gmap string (option GenericHotkey))
  : gmap string (option GenericHotkey) :=
  foldl notify hotkeys ns.

Record State := {
  hotkeys : gmap string (option GenericHotkey);
  world : World
}.

Inductive Effect :=
| PreventDefault
| OnPress (hotkey : GenericHotkey).

(** [hotkeys[keysToCheck.find(key => key in hotkeys) ?? ""]] *)
Definition lookup_hotkey (hotkeys : gmap string (option GenericHotkey))
    (keys : list string) : option GenericHotkey :=
  get hotkeys (JS.find_or (has_key hotkeys) keys "").

(** The end of the handler: the lookup and the guarded call. *)
Definition dispatch (keys : list string) (st : State) : list Effect * State :=
  match lookup_hotkey (hotkeys st) keys with
  | Some hotkey =>
      if unref (enabled hotkey) (world st) then
        ([PreventDefault; OnPress hotkey],
         {| hotkeys := hotkeys st; world := onPress hotkey (world st) |})
      else ([], st)
  | None => ([], st)
  end.

(** [e.target?.tagName === "INPUT"] *)
Definition targets_input (e : KeyboardEvent) : bool :=
  match target e with
  | Some el => String.eqb (tagName el) "INPUT"
  | None => false
  end.

(** [hasWon.value && !player.keepGoing] *)
Definition suspended (w : World) : bool :=
  hasWon_value w && negb (player_keepGoing w).

(** [document.onkeydown] *)
Definition onkeydown (e : KeyboardEvent) (st : State) : list Effect * State :=
  if targets_input e then ([], st)
  else if suspended (world st) then ([], st)
  else dispatch (keysToCheck e) st.

(** A run of key-down events, each handled in the state the one before it
    left. *)
Fixpoint keydowns (es : list KeyboardEvent) (st : State) : list Effect * State :=
  match es with
  | [] => ([], st)
  | e :: es' =>
      let '(effs, st') := onkeydown e st in
      let '(effs', st'') := keydowns es' st' in
      (effs ++ effs', st'')
  end.

(** *** The info component registered on "setupVue" *)

(** [unref(hotkey?.enabled)], for an entry of the dictionary: an entry that
    holds [undefined] gives [undefined], which is falsy. *)
Definition entry_enabled (w : World) (entry : option GenericHotkey) : bool :=
  match entry with
  | Some hotkey => unref (enabled hotkey) w
  | None => false
  end.

(** [Object.values(hotkeys).filter(hotkey => unref(hotkey?.enabled))].
    The values come in the order of [map_to_list]; the order in which
    [Object.values] enumerates them is not represented. *)
Definition info_keys (hotkeys : gmap string (option GenericHotkey)) (w : World)
  : list (option GenericHotkey) :=
  List.filter (entry_enabled w) (snd <$> map_to_list hotkeys).

(** What the component renders: the empty string, or the "Hotkeys" block
    with one row for each of [keys]. *)
Inductive InfoView :=
| NoInfo
| HotkeysBlock (rows : list (option GenericHotkey)).

Definition info_component (hotkeys : gmap string (option GenericHotkey)) (w : World)
  : InfoView :=
  let keys := info_keys hotkeys w in
  if Nat.eqb (length keys) 0 then NoInfo else HotkeysBlock keys.

(** *** The words of the specification, for comparison *)

(** The decimal digit [i], as a string. *)
Definition digit (i : nat) : string :=
  String (Ascii.ascii_of_nat (48 + i)) EmptyString.

(** The definitions a notification registers. *)
Definition registered_by (n : Notification) : list GenericHotkey :=
  match n with
  | LayerAdded layer => layer
  | LayerRemoved _ => []
  end.

(** Every definition that some "layer added" notification of [ns]
    registered, oldest first. *)
Definition registrations (ns : list Notification) : list GenericHotkey :=
  ns ≫= registered_by.

(** The definition most recently registered under [k]. *)
Definition most_recently_registered (k : string) (ns : list Notification)
  : option GenericHotkey :=
  last (filter (λ h, hotkey_key h = k) (registrations ns)).

End Hotkeys.

(** ** A small game, to run the handlers on *)

Module Game.

(** A world with the two signals the key handler reads and a score. *)
Record World := { won : bool; keepGoing : bool; points : nat }.

#[global] Instance host : Host World :=
  {| hasWon_value := won; player_keepGoing := keepGoing |}.

Definition playing (n : nat) : World :=
  {| won := false; keepGoing := false; points := n |}.

Definition gain (n : nat) : World → World :=
  λ w, {| won := won w; keepGoing := keepGoing w; points := points w + n |}.

(** A hotkey under [k] that scores [n] points; [enabled] is left out. *)
Definition scoring_options (k : string) (n : nat) : HotkeyOptions :=
  {| opt_enabled := None; opt_key := k;
     opt_description := Plain "score"; opt_onPress := gain n |}.

Definition scoring (k : string) (n : nat) : GenericHotkey :=
  createHotkey (scoring_options k n).

(** A hotkey under [k] that is enabled while the score is below [limit]. *)
Definition capped_options (k : string) (limit : nat) : HotkeyOptions :=
  {| opt_enabled := Some (Getter (λ w, Nat.ltb (points w) limit));
     opt_key := k;
     opt_description := Plain "score while low";
     opt_onPress := gain 1 |}.

Definition capped (k : string) (limit : nat) : GenericHotkey :=
  createHotkey (capped_options k limit).

Definition press (k : string) (shift ctrl : bool) : KeyboardEvent :=
  {| target := None; key := k; shiftKey := shift; ctrlKey := ctrl |}.

(** A hotkey under [k] whose options say [enabled: false]. *)
Definition switched_off_options (k : string) : HotkeyOptions :=
  {| opt_enabled := Some (Plain false); opt_key := k;
     opt_description := Plain "off"; opt_onPress := gain 1 |}.

Definition switched_off (k : string) : GenericHotkey :=
  createHotkey (switched_off_options k).

(** A key-down with key [k] and no modifier, on an element with tag [tag]. *)
Definition press_on (tag k : string) : KeyboardEvent :=
  {| target := Some {| tagName := tag |}; key := k;
     shiftKey := false; ctrlKey := false |}.

End Game.

(** Case analysis on the hotkeys that the "layer added" notifications of a
    given list register. *)
Ltac each_registration Hlayer Hin :=
  repeat (apply elem_of_cons in Hlayer as [Hlayer | Hlayer];
          [ try discriminate Hlayer; injection Hlayer as ->;
            repeat (apply elem_of_cons in Hin as [-> | Hin];
                    [| try by apply elem_of_nil in Hin])
          | ]);
  try by apply elem_of_nil in Hlayer.

(** ** The key event resolver *)

Section Resolver.

Lemma includes_elem_of (a : list string) (x : string) :
  JS.includes a x = true ↔ x ∈ a.
Proof.
  unfold JS.includes. induction a as [|y a IH]; simpl.
  - split; [discriminate | intros Hx; inversion Hx].
  - rewrite orb_true_iff, IH, String.eqb_eq, elem_of_cons.
    split; (intros [-> | Hx]; [by left | by right]).
Qed.

Lemma includes_not_elem_of (a : list string) (x : string) :
  JS.includes a x = false ↔ x ∉ a.
Proof.
  rewrite <- includes_elem_of. destruct (JS.includes a x); naive_solver.
Qed.

Lemma length_append (s t : string) :
  String.length (s +:+ t) = String.length s + String.length t.
Proof. induction s as [|c s IH]; simpl; [done | by rewrite IH]. Qed.

Lemma length_toUpperCase (s : string) :
  String.length (JS.toUpperCase s) = String.length s.
Proof. induction s as [|c s IH]; simpl; [done | by rewrite IH]. Qed.

Lemma length_toLowerCase (s : string) :
  String.length (JS.toLowerCase s) = String.length s.
Proof. induction s as [|c s IH]; simpl; [done | by rewrite IH]. Qed.

(** A string is never one of its own prefixed forms. *)
Lemma prefixed_neq (p s t : string) :
  (String.length s ≤ String.length t)%nat → p ≠ "" → s ≠ p +:+ t.
Proof.
  intros Hlen Hp Heq. apply (f_equal String.length) in Heq.
  rewrite length_append in Heq. destruct p; [done | simpl in Heq; lia].
Qed.

(** The ten shifted-digit symbols, with their positions. *)
Lemma uppercaseNumbers_lookup (i : nat) (sym : string) :
  uppercaseNumbers !! i = Some sym →
  i < 10 ∧ JS.includes uppercaseNumbers sym = true ∧
  JS.toString (JS.indexOf uppercaseNumbers sym) = digit i ∧
  JS.toUpperCase sym = sym ∧ String.length sym = 1.
Proof.
  intros Hi.
  do 10 (destruct i as [|i]; [injection Hi as <-; vm_compute; repeat split; lia |]).
  discriminate.
Qed.

Lemma uppercaseNumbers_elem_of (sym : string) :
  sym ∈ uppercaseNumbers → ∃ i, uppercaseNumbers !! i = Some sym.
Proof. intros Hin. by apply list_elem_of_lookup_1. Qed.

(** C2: with shift and ctrl both held the candidates are the two
    upper-case forms followed, for a shifted-digit symbol, by the two digit
    forms and otherwise by the two lower-case forms, in that order; the raw
    key is not among them; ctrl+shift with key "k" gives ctrl+shift+K,
    shift+ctrl+K, ctrl+shift+k, shift+ctrl+k. *)
Theorem C2_shift_ctrl_candidates (e : KeyboardEvent) :
  shiftKey e = true → ctrlKey e = true →
  (key e ∉ keysToCheck e) ∧
  (∀ i, uppercaseNumbers !! i = Some (key e) →
     keysToCheck e =
       ["ctrl+shift+" +:+ JS.toUpperCase (key e);
        "shift+ctrl+" +:+ JS.toUpperCase (key e);
        "ctrl+shift+" +:+ digit i;
        "shift+ctrl+" +:+ digit i]) ∧
  (key e ∉ uppercaseNumbers →
     keysToCheck e =
       ["ctrl+shift+" +:+ JS.toUpperCase (key e);
        "shift+ctrl+" +:+ JS.toUpperCase (key e);
        "ctrl+shift+" +:+ JS.toLowerCase (key e);
        "shift+ctrl+" +:+ JS.toLowerCase (key e)]) ∧
  (key e = "k" →
     keysToCheck e = ["ctrl+shift+K"; "shift+ctrl+K"; "ctrl+shift+k"; "shift+ctrl+k"]).
Proof.
  intros Hshift Hctrl.
  assert (Hsym : ∀ i, uppercaseNumbers !! i = Some (key e) →
     keysToCheck e =
       ["ctrl+shift+" +:+ JS.toUpperCase (key e);
        "shift+ctrl+" +:+ JS.toUpperCase (key e);
        "ctrl+shift+" +:+ digit i;
        "shift+ctrl+" +:+ digit i]).
  { intros i Hi. apply uppercaseNumbers_lookup in Hi as (_ & Hinc & Hidx & _).
    unfold keysToCheck. by rewrite Hshift, Hctrl, Hinc, Hidx. }
  assert (Hother : key e ∉ uppercaseNumbers →
     keysToCheck e =
       ["ctrl+shift+" +:+ JS.toUpperCase (key e);
        "shift+ctrl+" +:+ JS.toUpperCase (key e);
        "ctrl+shift+" +:+ JS.toLowerCase (key e);
        "shift+ctrl+" +:+ JS.toLowerCase (key e)]).
  { intros Hnot. apply includes_not_elem_of in Hnot.
    unfold keysToCheck. by rewrite Hshift, Hctrl, Hnot. }
  split; [| split; [done | split; [done |]]].
  - destruct (decide (key e ∈ uppercaseNumbers)) as [Hin | Hnot].
    + apply uppercaseNumbers_elem_of in Hin as [i Hi].
      rewrite (Hsym i Hi).
      apply uppercaseNumbers_lookup in Hi as (_ & _ & _ & _ & Hlen).
      rewrite !elem_of_cons, elem_of_nil.
      intros [Heq | [Heq | [Heq | [Heq | []]]]];
        apply (f_equal String.length) in Heq;
        rewrite length_append, ?length_toUpperCase in Heq; simpl in Heq; lia.
    + rewrite (Hother Hnot), !elem_of_cons, elem_of_nil.
      intros [Heq | [Heq | [Heq | [Heq | []]]]]; revert Heq;
        apply prefixed_neq; rewrite ?length_toUpperCase, ?length_toLowerCase; done.
  - intros Hk. rewrite Hother; [by rewrite Hk |].
    rewrite Hk. by apply includes_not_elem_of.
Qed.

(** C3: for a shifted-digit symbol, unless shift and ctrl are both held, the
    candidates are the symbol, "shift+" with the symbol and "shift+" with
    the digit at the symbol's position, in that order; "!" is probed before
    "shift+1". *)
Theorem C3_shifted_digit_candidates (e : KeyboardEvent) :
  (shiftKey e && ctrlKey e) = false →
  (∀ i, uppercaseNumbers !! i = Some (key e) →
     i < 10 ∧
     keysToCheck e = [key e; "shift+" +:+ key e; "shift+" +:+ digit i]) ∧
  (key e = "!" → keysToCheck e = ["!"; "shift+!"; "shift+1"]).
Proof.
  intros Hmods.
  assert (Hsym : ∀ i, uppercaseNumbers !! i = Some (key e) →
     i < 10 ∧
     keysToCheck e = [key e; "shift+" +:+ key e; "shift+" +:+ digit i]).
  { intros i Hi. apply uppercaseNumbers_lookup in Hi as (Hlt & Hinc & Hidx & _).
    split; [done |]. unfold keysToCheck. by rewrite Hmods, Hinc, Hidx. }
  split; [done |].
  intros Hk. destruct (Hsym 1) as [_ ->]; by rewrite Hk.
Qed.

Lemma keysToCheck_shift_only (e : KeyboardEvent) :
  shiftKey e = true → ctrlKey e = false →
  JS.includes uppercaseNumbers (key e) = false →
  keysToCheck e =
    [key e; "shift+" +:+ JS.toUpperCase (key e); "shift+" +:+ JS.toLowerCase (key e)].
Proof.
  intros Hshift Hctrl Hnot. unfold keysToCheck. by rewrite Hshift, Hctrl, Hnot.
Qed.

(** C4: with shift held, ctrl not held and a key that is not a shifted-digit
    symbol, the candidates are the key as delivered, "shift+" with the
    upper-case key and "shift+" with the lower-case key, in that order. *)
Theorem C4_shift_only_candidates (e : KeyboardEvent) :
  shiftKey e = true → ctrlKey e = false → key e ∉ uppercaseNumbers →
  keysToCheck e =
    [key e; "shift+" +:+ JS.toUpperCase (key e); "shift+" +:+ JS.toLowerCase (key e)].
Proof.
  intros Hshift Hctrl Hnot. apply includes_not_elem_of in Hnot.
  by apply keysToCheck_shift_only.
Qed.

End Resolver.

(** ** The registry and the dispatch controller *)

Section Dispatch.
Context {World : Type} `{Host World}.

Implicit Types (reg : gmap string (option (@GenericHotkey World))).
Implicit Types (h : @GenericHotkey World) (layer : list (@GenericHotkey World)).
Implicit Types (st : @State World) (w : World) (e : KeyboardEvent).
Implicit Types (n : @Notification World) (ns : list (@Notification World)).

(** *** Probing the candidates *)

Lemma has_key_true reg k : has_key reg k = true ↔ is_Some (reg !! k).
Proof. unfold has_key. apply bool_decide_eq_true. Qed.

Lemma has_key_false reg k : has_key reg k = false ↔ reg !! k = None.
Proof.
  unfold has_key. rewrite bool_decide_eq_false. symmetry. apply eq_None_not_Some.
Qed.

Lemma lookup_hotkey_nil reg : lookup_hotkey reg [] = get reg "".
Proof. done. Qed.

Lemma lookup_hotkey_present reg k keys :
  is_Some (reg !! k) → lookup_hotkey reg (k :: keys) = get reg k.
Proof.
  intros Hk. apply has_key_true in Hk.
  unfold lookup_hotkey, JS.find_or. simpl. by rewrite Hk.
Qed.

Lemma lookup_hotkey_absent reg k keys :
  reg !! k = None → lookup_hotkey reg (k :: keys) = lookup_hotkey reg keys.
Proof.
  intros Hk. apply has_key_false in Hk.
  unfold lookup_hotkey, JS.find_or. simpl. by rewrite Hk.
Qed.

(** The probe stops at the first candidate that is a key of the registry,
    whatever that key holds. *)
Lemma lookup_hotkey_first reg pre k post :
  (∀ k', k' ∈ pre → reg !! k' = None) → is_Some (reg !! k) →
  lookup_hotkey reg (pre ++ k :: post) = get reg k.
Proof.
  induction pre as [|k0 pre IH]; intros Hpre Hk; simpl.
  - by apply lookup_hotkey_present.
  - rewrite lookup_hotkey_absent by (apply Hpre; left).
    apply IH; [| done]. intros k' Hk'. apply Hpre. by right.
Qed.

(** When no candidate is a key of the registry, the empty string is looked
    up. *)
Lemma lookup_hotkey_fallback reg keys :
  (∀ k, k ∈ keys → reg !! k = None) → lookup_hotkey reg keys = get reg "".
Proof.
  induction keys as [|k keys IH]; intros Hkeys; [done |].
  rewrite lookup_hotkey_absent by (apply Hkeys; left).
  apply IH. intros k' Hk'. apply Hkeys. by right.
Qed.

(** The lookup yields what the registry holds under a candidate or under
    the empty string. *)
Lemma lookup_hotkey_Some reg keys h :
  lookup_hotkey reg keys = Some h →
  ∃ k, (k ∈ keys ∨ k = "") ∧ reg !! k = Some (Some h).
Proof.
  induction keys as [|k keys IH]; intros Hh.
  - exists "". split; [by right |].
    rewrite lookup_hotkey_nil in Hh. unfold get in Hh.
    destruct (reg !! "") as [[h'|]|]; try done. by injection Hh as ->.
  - destruct (reg !! k) as [v|] eqn:Hk.
    + rewrite lookup_hotkey_present in Hh by (rewrite Hk; eauto).
      unfold get in Hh. rewrite Hk in Hh. subst v.
      exists k. split; [left; left | done].
    + rewrite lookup_hotkey_absent in Hh by done.
      destruct (IH Hh) as (k' & [Hin | ->] & Hk').
      * exists k'. split; [left; by right | done].
      * exists "". split; [by right | done].
Qed.

(** *** The handler, gate by gate *)

Lemma onkeydown_input e st : targets_input e = true → onkeydown e st = ([], st).
Proof. intros He. unfold onkeydown. by rewrite He. Qed.

Lemma onkeydown_suspended e st :
  suspended (world st) = true → onkeydown e st = ([], st).
Proof. intros Hs. unfold onkeydown. rewrite Hs. by destruct (targets_input e). Qed.

Lemma onkeydown_open e st :
  targets_input e = false → suspended (world st) = false →
  onkeydown e st = dispatch (keysToCheck e) st.
Proof. intros He Hs. unfold onkeydown. by rewrite He, Hs. Qed.

Lemma dispatch_fires keys st h :
  lookup_hotkey (hotkeys st) keys = Some h →
  unref (enabled h) (world st) = true →
  dispatch keys st =
    ([PreventDefault; OnPress h],
     {| hotkeys := hotkeys st; world := onPress h (world st) |}).
Proof. intros Hh Hen. unfold dispatch. by rewrite Hh, Hen. Qed.

Lemma dispatch_disabled keys st h :
  lookup_hotkey (hotkeys st) keys = Some h →
  unref (enabled h) (world st) = false →
  dispatch keys st = ([], st).
Proof. intros Hh Hen. unfold dispatch. by rewrite Hh, Hen. Qed.

Lemma dispatch_undefined keys st :
  lookup_hotkey (hotkeys st) keys = None → dispatch keys st = ([], st).
Proof. intros Hh. unfold dispatch. by rewrite Hh. Qed.

(** A cleared key stops the probe: the candidates after it are not looked
    at. *)
Lemma dispatch_cleared_first k keys st :
  hotkeys st !! k = Some None → dispatch (k :: keys) st = ([], st).
Proof.
  intros Hk. apply dispatch_undefined.
  rewrite lookup_hotkey_present by (rewrite Hk; eauto).
  unfold get. by rewrite Hk.
Qed.

(** *** The registry under the layer notifications *)

Lemma addLayer_snoc layer h reg :
  addLayer (layer ++ [h]) reg = <[hotkey_key h := Some h]> (addLayer layer reg).
Proof. unfold addLayer, findFeatures. by rewrite foldl_snoc. Qed.

Lemma removeLayer_snoc layer h reg :
  removeLayer (layer ++ [h]) reg = <[hotkey_key h := None]> (removeLayer layer reg).
Proof. unfold removeLayer, findFeatures. by rewrite foldl_snoc. Qed.

(** After "layer added", a key holds the last definition the layer has for
    it, and what it held before when the layer has none. *)
Lemma addLayer_lookup layer reg k :
  addLayer layer reg !! k =
    match last (filter (λ h, hotkey_key h = k) layer) with
    | Some h => Some (Some h)
    | None => reg !! k
    end.
Proof.
  induction layer as [|h layer IH] using rev_ind; [done |].
  rewrite addLayer_snoc, filter_app, lookup_insert.
  destruct (decide (hotkey_key h = k)) as [Hk | Hk].
  - rewrite filter_cons_True, filter_nil by done. by rewrite last_snoc.
  - rewrite filter_cons_False, filter_nil, app_nil_r by done. apply IH.
Qed.

(** After "layer removed", every key of the layer is cleared and the others
    hold what they held before. *)
Lemma removeLayer_lookup layer reg k :
  removeLayer layer reg !! k =
    match filter (λ h, hotkey_key h = k) layer with
    | [] => reg !! k
    | _ :: _ => Some None
    end.
Proof.
  induction layer as [|h layer IH] using rev_ind; [done |].
  rewrite removeLayer_snoc, filter_app, lookup_insert.
  destruct (decide (hotkey_key h = k)) as [Hk | Hk].
  - rewrite filter_cons_True, filter_nil by done.
    by destruct (filter _ layer).
  - rewrite filter_cons_False, filter_nil, app_nil_r by done. apply IH.
Qed.

Lemma notify_all_snoc ns n reg :
  notify_all (ns ++ [n]) reg = notify (notify_all ns reg) n.
Proof. unfold notify_all. by rewrite foldl_snoc. Qed.

Lemma registrations_snoc ns n :
  registrations (ns ++ [n]) = registrations ns ++ registered_by n.
Proof.
  unfold registrations. rewrite bind_app. f_equal. simpl. apply app_nil_r.
Qed.

(** Whatever definition the registry holds under a key is the one most
    recently registered under it. *)
Lemma get_notify_all ns k h :
  get (notify_all ns ∅) k = Some h → most_recently_registered k ns = Some h.
Proof.
  revert h. induction ns as [|n ns IH] using rev_ind; intros h.
  - unfold get, notify_all. simpl. by rewrite lookup_empty.
  - rewrite notify_all_snoc. unfold most_recently_registered.
    rewrite registrations_snoc, filter_app.
    unfold get. destruct n as [layer | layer]; simpl.
    + rewrite addLayer_lookup, last_app.
      destruct (last (filter (λ h', hotkey_key h' = k) layer)) as [h'|];
        [done | apply IH].
    + rewrite removeLayer_lookup, filter_nil, app_nil_r.
      destruct (filter (λ h', hotkey_key h' = k) layer); [apply IH | done].
Qed.

Lemma most_recently_registered_elem_of ns k h :
  most_recently_registered k ns = Some h →
  hotkey_key h = k ∧ ∃ layer, LayerAdded layer ∈ ns ∧ h ∈ layer.
Proof.
  unfold most_recently_registered, registrations. intros Hlast.
  apply last_Some_elem_of, list_elem_of_filter in Hlast as [Hk Hin].
  split; [done |].
  apply list_elem_of_bind in Hin as (n & Hh & Hn).
  destruct n as [layer | layer]; [by exists layer | by apply elem_of_nil in Hh].
Qed.

(** *** The claims about dispatch *)

(** C5 (amended): a hotkey registered under "shift+A", in a registry that
    has no key "a", is matched by a key-down with key "a", shift held and
    ctrl not held: the candidates are "a", "shift+A", "shift+a", so
    "shift+A" is probed before "shift+a", and the press fires the hotkey
    when it is enabled. *)
Theorem C5_shift_upper_alias reg h e :
  reg !! "shift+A" = Some (Some h) → reg !! "a" = None →
  key e = "a" → shiftKey e = true → ctrlKey e = false →
  keysToCheck e = ["a"; "shift+A"; "shift+a"] ∧
  lookup_hotkey reg (keysToCheck e) = Some h ∧
  (∀ w, targets_input e = false → suspended w = false →
        unref (enabled h) w = true →
        onkeydown e {| hotkeys := reg; world := w |} =
          ([PreventDefault; OnPress h],
           {| hotkeys := reg; world := onPress h w |})).
Proof.
  intros Hreg Ha Hkey Hshift Hctrl.
  assert (Hkeys : keysToCheck e = ["a"; "shift+A"; "shift+a"]).
  { rewrite keysToCheck_shift_only; by rewrite ?Hkey. }
  assert (Hlookup : lookup_hotkey reg (keysToCheck e) = Some h).
  { rewrite Hkeys, lookup_hotkey_absent by done.
    rewrite lookup_hotkey_present by (rewrite Hreg; eauto).
    unfold get. by rewrite Hreg. }
  split; [done | split; [done |]].
  intros w He Hs Hen. rewrite onkeydown_open by done.
  by apply dispatch_fires.
Qed.

(** C6: while the game is won and the player has not chosen to keep going,
    no run of key-down events invokes an action or prevents the default,
    whatever the registry holds; with the preference set, the handler is the
    ungated dispatch on the same registry, so an enabled hotkey found there
    fires. *)
Theorem C6_suspended_after_win reg w :
  hasWon_value w = true → player_keepGoing w = false →
  (∀ es, keydowns es {| hotkeys := reg; world := w |} =
         ([], {| hotkeys := reg; world := w |})) ∧
  (∀ e w', player_keepGoing w' = true → targets_input e = false →
     onkeydown e {| hotkeys := reg; world := w' |} =
       dispatch (keysToCheck e) {| hotkeys := reg; world := w' |} ∧
     ∀ h, lookup_hotkey reg (keysToCheck e) = Some h →
          unref (enabled h) w' = true →
          onkeydown e {| hotkeys := reg; world := w' |} =
            ([PreventDefault; OnPress h],
             {| hotkeys := reg; world := onPress h w' |})).
Proof.
  intros Hwon Hkeep. split.
  - intros es. induction es as [|e es IH]; [done |].
    simpl. rewrite onkeydown_suspended, IH; [done |].
    unfold suspended. simpl. by rewrite Hwon, Hkeep.
  - intros e w' Hkeep' He.
    assert (Hopen : suspended w' = false).
    { unfold suspended. rewrite Hkeep'. apply andb_false_r. }
    split; [by apply onkeydown_open |].
    intros h Hh Hen. rewrite onkeydown_open by done. by apply dispatch_fires.
Qed.

(** C7: when no candidate of a key-down is a key that was ever registered
    (keys being non-empty, as the data model requires), the handler does
    nothing: no action is invoked, the default is not prevented, and the
    registry and the world are as before. *)
Theorem C7_unregistered_is_noop ns e w :
  (∀ layer h, LayerAdded layer ∈ ns → h ∈ layer → hotkey_key h ≠ "") →
  (∀ layer h, LayerAdded layer ∈ ns → h ∈ layer → hotkey_key h ∉ keysToCheck e) →
  onkeydown e {| hotkeys := notify_all ns ∅; world := w |} =
    ([], {| hotkeys := notify_all ns ∅; world := w |}).
Proof.
  intros Hnonempty Hnever. unfold onkeydown.
  destruct (targets_input e); [done |].
  destruct (suspended _); [done |].
  apply dispatch_undefined. simpl.
  destruct (lookup_hotkey _ _) as [h|] eqn:Hh; [exfalso | done].
  apply lookup_hotkey_Some in Hh as (k & Hk & Hreg).
  assert (Hget : get (notify_all ns ∅) k = Some h) by (unfold get; by rewrite Hreg).
  apply get_notify_all, most_recently_registered_elem_of in Hget
    as (Hkey & layer & Hlayer & Hin).
  destruct Hk as [Hk | ->].
  - apply (Hnever layer h Hlayer Hin). by rewrite Hkey.
  - by apply (Hnonempty layer h Hlayer Hin).
Qed.

(** C8: after any sequence of "layer added" and "layer removed"
    notifications, what the registry holds under a key string is a single
    definition at most, and it is the one most recently registered under
    that string; when a layer that registers "R" is loaded after another
    layer, a press of "R" fires the later layer's (last) definition. *)
Theorem C8_last_write_wins ns :
  (∀ k h, get (notify_all ns ∅) k = Some h →
          most_recently_registered k ns = Some h) ∧
  (∀ layer1 layer2 h2 e w,
     last (filter (λ h, hotkey_key h = "R") layer2) = Some h2 →
     key e = "R" → ctrlKey e = false →
     targets_input e = false → suspended w = false →
     unref (enabled h2) w = true →
     onkeydown e {| hotkeys := notify_all (ns ++ [LayerAdded layer1; LayerAdded layer2]) ∅;
                    world := w |} =
       ([PreventDefault; OnPress h2],
        {| hotkeys := notify_all (ns ++ [LayerAdded layer1; LayerAdded layer2]) ∅;
           world := onPress h2 w |})).
Proof.
  split; [intros k h; apply get_notify_all |].
  intros layer1 layer2 h2 e w Hlast Hkey Hctrl He Hs Hen.
  rewrite onkeydown_open by done.
  apply dispatch_fires; [| done]. simpl.
  set (reg := notify_all (ns ++ [LayerAdded layer1; LayerAdded layer2]) ∅).
  assert (Hreg : reg !! "R" = Some (Some h2)).
  { unfold reg. change [LayerAdded layer1; LayerAdded layer2]
      with ([LayerAdded layer1] ++ [LayerAdded layer2]).
    rewrite app_assoc, notify_all_snoc. simpl.
    by rewrite addLayer_lookup, Hlast. }
  assert (Hkeys : ∃ keys, keysToCheck e = "R" :: keys).
  { unfold keysToCheck. rewrite Hctrl, andb_false_r, Hkey. simpl.
    destruct (shiftKey e); eauto. }
  destruct Hkeys as [keys ->].
  rewrite lookup_hotkey_present by (rewrite Hreg; eauto).
  unfold get. by rewrite Hreg.
Qed.

(** C9: [enabled] is [true] when the options leave it out; a computed
    [enabled] yields its value in the current world at each access; a press
    that finds a hotkey fires it exactly when its [enabled] is true in the
    world of that press, so that of two presses in a row the first can fire
    and the second not. *)
Theorem C9_enabled_is_current :
  (∀ options w, opt_enabled options = None →
     unref (enabled (createHotkey options)) w = true) ∧
  (∀ options f w, opt_enabled options = Some (Getter f) →
     unref (enabled (createHotkey options)) w = f w) ∧
  (∀ e st h,
     targets_input e = false → suspended (world st) = false →
     lookup_hotkey (hotkeys st) (keysToCheck e) = Some h →
     (OnPress h ∈ (onkeydown e st).1 ↔ unref (enabled h) (world st) = true) ∧
     (unref (enabled h) (world st) = true →
        onkeydown e st =
          ([PreventDefault; OnPress h],
           {| hotkeys := hotkeys st; world := onPress h (world st) |})) ∧
     (unref (enabled h) (world st) = false → onkeydown e st = ([], st))) ∧
  (∀ e st h,
     targets_input e = false →
     lookup_hotkey (hotkeys st) (keysToCheck e) = Some h →
     suspended (world st) = false →
     unref (enabled h) (world st) = true →
     suspended (onPress h (world st)) = false →
     unref (enabled h) (onPress h (world st)) = false →
     keydowns [e; e] st =
       ([PreventDefault; OnPress h],
        {| hotkeys := hotkeys st; world := onPress h (world st) |})).
Proof.
  split; [| split; [| split]].
  - intros options w Hopt. unfold createHotkey. simpl. by rewrite Hopt.
  - intros options f w Hopt. unfold createHotkey. simpl. by rewrite Hopt.
  - intros e st h He Hs Hh. rewrite onkeydown_open by done.
    destruct (unref (enabled h) (world st)) eqn:Hen.
    + rewrite (dispatch_fires _ _ h) by done. simpl.
      split; [| done]. split; [done |]. intros _. right. left.
    + rewrite (dispatch_disabled _ _ h) by done. simpl.
      split; [| done]. split; [| done]. intros Hin. by apply elem_of_nil in Hin.
  - intros e st h He Hh Hs Hen Hs' Hen'. simpl.
    rewrite onkeydown_open by done.
    rewrite (dispatch_fires _ _ h) by done.
    rewrite onkeydown_open by done.
    by rewrite (dispatch_disabled _ _ h) by done.
Qed.

(** C10: with a definition stored under the empty string, a key-down that
    passes both gates and has no candidate among the keys of the registry
    fires that definition when its [enabled] is true. *)
Theorem C10_empty_key_fallback e st h :
  hotkeys st !! "" = Some (Some h) →
  targets_input e = false → suspended (world st) = false →
  (∀ k, k ∈ keysToCheck e → has_key (hotkeys st) k = false) →
  unref (enabled h) (world st) = true →
  onkeydown e st =
    ([PreventDefault; OnPress h],
     {| hotkeys := hotkeys st; world := onPress h (world st) |}).
Proof.
  intros Hempty He Hs Hkeys Hen.
  rewrite onkeydown_open by done.
  apply dispatch_fires; [| done].
  rewrite lookup_hotkey_fallback.
  - unfold get. by rewrite Hempty.
  - intros k Hk. by apply has_key_false, Hkeys.
Qed.

End Dispatch.

(** ** Runs of the small game *)

Section Runs.

Import Game.

(** C1 (what the code does): a layer registers "!" and another registers
    "shift+1", then the first layer is removed.  The key "!" stays in the
    registry and holds nothing.  A press that delivers "!" stops at that
    cleared key and fires nothing, although the later candidate "shift+1"
    holds an enabled definition; had the key "!" been deleted instead, the
    same press would fire the "shift+1" definition. *)
Theorem C1_cleared_key_stops_probe :
  let layer1 := [scoring "!" 1] in
  let layer2 := [scoring "shift+1" 2] in
  let cleared :=
    notify_all [LayerAdded layer1; LayerAdded layer2; LayerRemoved layer1] ∅ in
  let e := press "!" true false in
  keysToCheck e = ["!"; "shift+!"; "shift+1"] ∧
  cleared !! "!" = Some None ∧
  cleared !! "shift+1" = Some (Some (scoring "shift+1" 2)) ∧
  unref (enabled (scoring "shift+1" 2)) (playing 0) = true ∧
  onkeydown e {| hotkeys := cleared; world := playing 0 |} =
    ([], {| hotkeys := cleared; world := playing 0 |}) ∧
  (onkeydown e {| hotkeys := delete "!" cleared; world := playing 0 |}).1 =
    [PreventDefault; OnPress (scoring "shift+1" 2)].
Proof. repeat split; vm_compute; reflexivity. Qed.

(** C5 as stated fails: with a hotkey registered under "A", a key-down with
    key "a" and shift held probes "a", "shift+A" and "shift+a", none of
    which is "A", and fires nothing. *)
Lemma C5_key_A_not_matched :
  let h := scoring "A" 1 in
  let reg := addLayer [h] ∅ in
  let e := press "a" true false in
  reg !! "A" = Some (Some h) ∧
  unref (enabled h) (playing 0) = true ∧
  keysToCheck e = ["a"; "shift+A"; "shift+a"] ∧
  lookup_hotkey reg (keysToCheck e) = None ∧
  onkeydown e {| hotkeys := reg; world := playing 0 |} =
    ([], {| hotkeys := reg; world := playing 0 |}).
Proof. repeat split; vm_compute; reflexivity. Qed.

(** *** The theorems above, at concrete presses *)

Lemma C2_witness :
  keysToCheck (press "k" true true) =
    ["ctrl+shift+K"; "shift+ctrl+K"; "ctrl+shift+k"; "shift+ctrl+k"] ∧
  keysToCheck (press "#" true true) =
    ["ctrl+shift+#"; "shift+ctrl+#"; "ctrl+shift+3"; "shift+ctrl+3"] ∧
  "k" ∉ keysToCheck (press "k" true true).
Proof.
  destruct (C2_shift_ctrl_candidates (press "k" true true) eq_refl eq_refl)
    as (Hraw & _ & Hother & Hk).
  destruct (C2_shift_ctrl_candidates (press "#" true true) eq_refl eq_refl)
    as (_ & Hsym & _).
  split; [| split].
  - exact (Hk eq_refl).
  - exact (Hsym 3 eq_refl).
  - exact Hraw.
Defined.

Lemma C3_witness :
  keysToCheck (press "!" true false) = ["!"; "shift+!"; "shift+1"] ∧
  keysToCheck (press "(" false true) = ["("; "shift+("; "shift+9"].
Proof.
  split.
  - exact (proj2 (C3_shifted_digit_candidates (press "!" true false) eq_refl) eq_refl).
  - exact (proj2 (proj1 (C3_shifted_digit_candidates (press "(" false true) eq_refl)
                        9 eq_refl)).
Defined.

Lemma C4_witness :
  keysToCheck (press "a" true false) = ["a"; "shift+A"; "shift+a"].
Proof.
  apply (C4_shift_only_candidates (press "a" true false)); [reflexivity .. |].
  apply includes_not_elem_of. reflexivity.
Defined.

Lemma C5_witness :
  let h := scoring "shift+A" 1 in
  let reg := addLayer [h; scoring "shift+a" 2] ∅ in
  lookup_hotkey reg (keysToCheck (press "a" true false)) = Some h ∧
  onkeydown (press "a" true false) {| hotkeys := reg; world := playing 0 |} =
    ([PreventDefault; OnPress h], {| hotkeys := reg; world := playing 1 |}).
Proof.
  intros h reg.
  destruct (C5_shift_upper_alias reg h (press "a" true false))
    as (_ & Hlookup & Hfires); [reflexivity .. |].
  split; [exact Hlookup |].
  apply (Hfires (playing 0)); reflexivity.
Defined.

Lemma C6_witness :
  let reg := addLayer [scoring "x" 1] ∅ in
  let w := {| won := true; keepGoing := false; points := 0 |} in
  let w' := {| won := true; keepGoing := true; points := 0 |} in
  keydowns [press "x" false false; press "x" true false]
           {| hotkeys := reg; world := w |} =
    ([], {| hotkeys := reg; world := w |}) ∧
  (onkeydown (press "x" false false) {| hotkeys := reg; world := w' |}).1 =
    [PreventDefault; OnPress (scoring "x" 1)].
Proof.
  intros reg w w'.
  destruct (C6_suspended_after_win reg w) as [Hquiet Hagain]; [reflexivity .. |].
  split; [apply Hquiet |].
  destruct (Hagain (press "x" false false) w') as [_ Hfires]; [reflexivity .. |].
  rewrite (Hfires (scoring "x" 1)); reflexivity.
Defined.

Lemma C7_witness :
  let ns := [LayerAdded [scoring "x" 1; scoring "shift+y" 2];
             LayerRemoved [scoring "x" 1];
             LayerAdded [scoring "ctrl+z" 3]] in
  onkeydown (press "z" true false)
            {| hotkeys := notify_all ns ∅; world := playing 0 |} =
    ([], {| hotkeys := notify_all ns ∅; world := playing 0 |}).
Proof.
  intros ns. apply C7_unregistered_is_noop.
  - intros layer h Hlayer Hin. each_registration Hlayer Hin; discriminate.
  - intros layer h Hlayer Hin.
    each_registration Hlayer Hin; apply includes_not_elem_of; reflexivity.
Defined.

Lemma C8_witness :
  let ns := [LayerAdded [scoring "Q" 1]; LayerRemoved [scoring "Z" 0]] in
  let layer1 := [scoring "R" 1] in
  let layer2 := [scoring "S" 2; scoring "R" 3] in
  most_recently_registered "Q" ns = Some (scoring "Q" 1) ∧
  (onkeydown (press "R" true false)
             {| hotkeys := notify_all (ns ++ [LayerAdded layer1; LayerAdded layer2]) ∅;
                world := playing 0 |}).1 =
    [PreventDefault; OnPress (scoring "R" 3)].
Proof.
  intros ns layer1 layer2.
  destruct (C8_last_write_wins ns) as [Hlast HR].
  split; [apply Hlast; reflexivity |].
  rewrite (HR layer1 layer2 (scoring "R" 3) (press "R" true false) (playing 0));
    reflexivity.
Defined.

Lemma C9_witness :
  let h := capped "x" 1 in
  let reg := addLayer [h] ∅ in
  unref (enabled (scoring "y" 1)) (playing 0) = true ∧
  unref (enabled h) (playing 0) = true ∧
  unref (enabled h) (playing 1) = false ∧
  onkeydown (press "x" false false) {| hotkeys := reg; world := playing 1 |} =
    ([], {| hotkeys := reg; world := playing 1 |}) ∧
  keydowns [press "x" false false; press "x" false false]
           {| hotkeys := reg; world := playing 0 |} =
    ([PreventDefault; OnPress h], {| hotkeys := reg; world := playing 1 |}).
Proof.
  intros h reg.
  destruct (@C9_enabled_is_current World host)
    as (Hdefault & Hcurrent & Hpress & Htwice).
  split; [| split; [| split; [| split]]].
  - apply (Hdefault (scoring_options "y" 1)). reflexivity.
  - exact (Hcurrent (capped_options "x" 1) _ (playing 0) eq_refl).
  - exact (Hcurrent (capped_options "x" 1) _ (playing 1) eq_refl).
  - destruct (Hpress (press "x" false false)
                     {| hotkeys := reg; world := playing 1 |} h)
      as (_ & _ & Hoff); [reflexivity .. |].
    apply Hoff. reflexivity.
  - apply (Htwice (press "x" false false)
                  {| hotkeys := reg; world := playing 0 |} h); reflexivity.
Defined.

Lemma C10_witness :
  let h := scoring "" 5 in
  let reg := addLayer [h; scoring "q" 1] ∅ in
  onkeydown (press "z" false true) {| hotkeys := reg; world := playing 0 |} =
    ([PreventDefault; OnPress h], {| hotkeys := reg; world := playing 5 |}).
Proof.
  intros h reg.
  apply (C10_empty_key_fallback (press "z" false true)
           {| hotkeys := reg; world := playing 0 |} h); [reflexivity .. | | reflexivity].
  intros k Hk. apply list_elem_of_singleton in Hk as ->. reflexivity.
Defined.

End Runs.

(** ** More on the key event resolver *)

Section ResolverShape.

Lemma prefixed_neq_short (p s t : string) :
  String.length s < String.length p → s ≠ p +:+ t.
Proof.
  intros Hlen Heq. apply (f_equal String.length) in Heq.
  rewrite length_append in Heq. lia.
Qed.

Lemma symbol_length (sym : string) :
  sym ∈ uppercaseNumbers → String.length sym = 1.
Proof.
  intros Hin. apply uppercaseNumbers_elem_of in Hin as [i Hi].
  by apply uppercaseNumbers_lookup in Hi as (_ & _ & _ & _ & Hlen).
Qed.

(** The five branches of the resolver, the first split by its inner test. *)
Lemma keysToCheck_cases (e : KeyboardEvent) :
  let k := key e in
  let n := JS.toString (JS.indexOf uppercaseNumbers k) in
  (shiftKey e = true ∧ ctrlKey e = true ∧ (k ∈ uppercaseNumbers) ∧
   keysToCheck e =
     ["ctrl+shift+" +:+ JS.toUpperCase k; "shift+ctrl+" +:+ JS.toUpperCase k;
      "ctrl+shift+" +:+ n; "shift+ctrl+" +:+ n]) ∨
  (shiftKey e = true ∧ ctrlKey e = true ∧ (k ∉ uppercaseNumbers) ∧
   keysToCheck e =
     ["ctrl+shift+" +:+ JS.toUpperCase k; "shift+ctrl+" +:+ JS.toUpperCase k;
      "ctrl+shift+" +:+ JS.toLowerCase k; "shift+ctrl+" +:+ JS.toLowerCase k]) ∨
  ((shiftKey e && ctrlKey e) = false ∧ (k ∈ uppercaseNumbers) ∧
   keysToCheck e = [k; "shift+" +:+ k; "shift+" +:+ n]) ∨
  (shiftKey e = true ∧ ctrlKey e = false ∧ (k ∉ uppercaseNumbers) ∧
   keysToCheck e =
     [k; "shift+" +:+ JS.toUpperCase k; "shift+" +:+ JS.toLowerCase k]) ∨
  (shiftKey e = false ∧ ctrlKey e = true ∧ (k ∉ uppercaseNumbers) ∧
   keysToCheck e = ["ctrl+" +:+ k]) ∨
  (shiftKey e = false ∧ ctrlKey e = false ∧ (k ∉ uppercaseNumbers) ∧
   keysToCheck e = [k]).
Proof.
  intros k n. unfold keysToCheck. fold k. fold n.
  destruct (JS.includes uppercaseNumbers k) eqn:Hinc;
    [apply includes_elem_of in Hinc | apply includes_not_elem_of in Hinc];
    destruct (shiftKey e), (ctrlKey e); simpl; tauto.
Qed.

(** Without ctrl the key as delivered is the first candidate. *)
Lemma keysToCheck_no_ctrl (e : KeyboardEvent) :
  ctrlKey e = false → ∃ keys, keysToCheck e = key e :: keys.
Proof.
  intros Hctrl.
  destruct (keysToCheck_cases e)
    as [(_ & ? & _) | [(_ & ? & _) | [(_ & _ & ->) | [(_ & _ & _ & ->)
       | [(_ & ? & _) | (_ & _ & _ & ->)]]]]]; eauto; congruence.
Qed.

(** The key as delivered is probed exactly when ctrl is not held, or when
    it is a shifted-digit symbol and shift is not held: ctrl takes the raw
    key out of the candidates except for a symbol pressed without shift. *)
Theorem raw_key_is_candidate (e : KeyboardEvent) :
  key e ∈ keysToCheck e ↔
  ctrlKey e = false ∨ (shiftKey e = false ∧ key e ∈ uppercaseNumbers).
Proof.
  destruct (keysToCheck_cases e)
    as [(Hs & Hc & Hin & ->) | [(Hs & Hc & Hin & ->) | [(Hsc & Hin & ->)
       | [(Hs & Hc & Hin & ->) | [(Hs & Hc & Hin & ->) | (Hs & Hc & Hin & ->)]]]]].
  - apply symbol_length in Hin.
    split; [| intros [? | [? _]]; congruence].
    rewrite !elem_of_cons, elem_of_nil.
    intros [Heq | [Heq | [Heq | [Heq | []]]]]; exfalso; revert Heq;
      apply prefixed_neq_short; rewrite Hin; simpl; lia.
  - split; [| intros [? | [? _]]; congruence].
    rewrite !elem_of_cons, elem_of_nil.
    intros [Heq | [Heq | [Heq | [Heq | []]]]]; exfalso; revert Heq;
      apply prefixed_neq; rewrite ?length_toUpperCase, ?length_toLowerCase; done.
  - split; [intros _ | intros _; left].
    destruct (shiftKey e), (ctrlKey e); try done; auto.
  - split; [intros _; by left | intros _; left].
  - split; [| intros [? | [_ ?]]; [congruence | done]].
    rewrite elem_of_cons, elem_of_nil. intros [Heq | []].
    exfalso. revert Heq. by apply prefixed_neq.
  - split; [intros _; by left | intros _; left].
Qed.

(** "ctrl+" followed by a shifted-digit symbol is never probed, unless the
    delivered key is that very string: with ctrl alone a symbol takes the
    symbol branch, so a hotkey registered under, say, "ctrl+!" cannot be
    reached by a key-down that delivers a character. *)
Theorem ctrl_symbol_never_probed (e : KeyboardEvent) (sym : string) :
  sym ∈ uppercaseNumbers → key e ≠ "ctrl+" +:+ sym →
  "ctrl+" +:+ sym ∉ keysToCheck e.
Proof.
  intros Hsym Hkey. pose proof (symbol_length sym Hsym) as Hlen.
  assert (Hlong : ∀ t, "ctrl+" +:+ sym ≠ "ctrl+shift+" +:+ t).
  { intros t. apply prefixed_neq_short. rewrite length_append, Hlen. simpl. lia. }
  assert (Hshift : ∀ t, "ctrl+" +:+ sym ≠ "shift+" +:+ t) by (intros t; discriminate).
  assert (Hshiftctrl : ∀ t, "ctrl+" +:+ sym ≠ "shift+ctrl+" +:+ t)
    by (intros t; discriminate).
  destruct (keysToCheck_cases e)
    as [(_ & _ & _ & ->) | [(_ & _ & _ & ->) | [(_ & _ & ->)
       | [(_ & _ & _ & ->) | [(_ & _ & Hin & ->) | (_ & _ & _ & ->)]]]]];
    rewrite ?elem_of_cons, elem_of_nil; intros Hcand;
    repeat (destruct Hcand as [Heq | Hcand];
            [ first [ by apply Hlong in Heq | by apply Hshift in Heq
                    | by apply Hshiftctrl in Heq | by symmetry in Heq
                    | idtac ] | ]);
    try done.
  apply (inj (String.app "ctrl+")) in Heq. by subst sym.
Qed.

End ResolverShape.

(** ** Case and the shifted aliases *)

Section ResolverCase.








End ResolverCase.

(** ** More on the registry and the dispatch controller *)

Section Lifecycle.
Context {World : Type} `{Host World}.

Implicit Types (reg : gmap string (option (@GenericHotkey World))).
Implicit Types (h : @GenericHotkey World) (layer : list (@GenericHotkey World)).
Implicit Types (st : @State World) (w : World) (e : KeyboardEvent).
Implicit Types (n : @Notification World) (ns : list (@Notification World)).

(** *** Helpers *)

Lemma filter_key_elem_of layer h :
  h ∈ layer → filter (λ h', hotkey_key h' = hotkey_key h) layer ≠ [].
Proof.
  intros Hin Hnil.
  assert (Hh : h ∈ filter (λ h', hotkey_key h' = hotkey_key h) layer)
    by (by apply list_elem_of_filter).
  rewrite Hnil in Hh. by apply elem_of_nil in Hh.
Qed.

Lemma last_filter_key layer k h :
  last (filter (λ h', hotkey_key h' = k) layer) = Some h →
  h ∈ layer ∧ hotkey_key h = k.
Proof.
  intros Hlast. apply last_Some_elem_of, list_elem_of_filter in Hlast. tauto.
Qed.

Lemma addLayer_lookup_elem_of layer reg h :
  h ∈ layer → is_Some (addLayer layer reg !! hotkey_key h).
Proof.
  intros Hin. rewrite addLayer_lookup.
  destruct (last _) as [h'|] eqn:Hlast; [eauto |].
  apply last_None in Hlast. by apply filter_key_elem_of in Hlast.
Qed.

Lemma removeLayer_lookup_elem_of layer reg h :
  h ∈ layer → removeLayer layer reg !! hotkey_key h = Some None.
Proof.
  intros Hin. rewrite removeLayer_lookup.
  destruct (filter _ layer) eqn:Hf; [| done].
  by apply filter_key_elem_of in Hf.
Qed.

Lemma notify_keeps_key reg n k :
  is_Some (reg !! k) → is_Some (notify reg n !! k).
Proof.
  intros Hk. destruct n as [layer | layer]; simpl.
  - rewrite addLayer_lookup. destruct (last _); eauto.
  - rewrite removeLayer_lookup. destruct (filter _ layer); eauto.
Qed.

Lemma notify_all_keeps_key ns reg k :
  is_Some (reg !! k) → is_Some (notify_all ns reg !! k).
Proof.
  intros Hk. induction ns as [|n ns IH] using rev_ind; [done |].
  rewrite notify_all_snoc. by apply notify_keeps_key.
Qed.

Lemma notify_all_app ns1 ns2 reg :
  notify_all (ns1 ++ ns2) reg = notify_all ns2 (notify_all ns1 reg).
Proof. unfold notify_all. apply foldl_app. Qed.

(** What a key-down does: nothing at all, or the default prevented and then
    one action. *)
Lemma onkeydown_outcome e st :
  onkeydown e st = ([], st) ∨
  ∃ k h, (k ∈ keysToCheck e ∨ k = "") ∧
         hotkeys st !! k = Some (Some h) ∧
         unref (enabled h) (world st) = true ∧
         targets_input e = false ∧ suspended (world st) = false ∧
         onkeydown e st =
           ([PreventDefault; OnPress h],
            {| hotkeys := hotkeys st; world := onPress h (world st) |}).
Proof.
  unfold onkeydown.
  destruct (targets_input e) eqn:He; [by left |].
  destruct (suspended (world st)) eqn:Hs; [by left |].
  unfold dispatch.
  destruct (lookup_hotkey (hotkeys st) (keysToCheck e)) as [h|] eqn:Hh; [| by left].
  destruct (unref (enabled h) (world st)) eqn:Hen; [| by left].
  right. apply lookup_hotkey_Some in Hh as (k & Hk & Hreg).
  exists k, h. eauto 10.
Qed.

(** *** The gates *)

(** A key-down on an element whose tag is "INPUT" does nothing, whatever
    the registry and the world are; no other element stops the handler: on
    any other tag, or with no target, the outcome is the one of the same
    key and modifiers anywhere else. *)
Theorem only_input_elements_are_skipped e st :
  (∀ el, target e = Some el → tagName el = "INPUT" → onkeydown e st = ([], st)) ∧
  (∀ e', key e' = key e → shiftKey e' = shiftKey e → ctrlKey e' = ctrlKey e →
         (∀ el, target e = Some el → tagName el ≠ "INPUT") →
         (∀ el, target e' = Some el → tagName el ≠ "INPUT") →
         onkeydown e' st = onkeydown e st).
Proof.
  assert (Hfree : ∀ e0, (∀ el, target e0 = Some el → tagName el ≠ "INPUT") →
                        targets_input e0 = false).
  { intros e0 Hel. unfold targets_input. destruct (target e0) as [el|]; [| done].
    apply String.eqb_neq. by apply Hel. }
  split.
  - intros el Hel Htag. apply onkeydown_input.
    unfold targets_input. rewrite Hel. by apply String.eqb_eq.
  - intros e' Hk Hs Hc Hfree_e Hfree_e'. unfold onkeydown.
    rewrite (Hfree e Hfree_e), (Hfree e' Hfree_e').
    unfold keysToCheck. by rewrite Hk, Hs, Hc.
Qed.

(** *** What a key-down can do *)

(** A key-down either changes nothing and has no effect, or prevents the
    default and then invokes exactly one action, in that order: the action
    of a definition that the registry holds under one of the candidates (or
    under the empty string) and that is enabled in the world of the press.
    The default is never prevented without an action, and no disabled
    hotkey is ever invoked. *)
Theorem keydown_fires_at_most_one_enabled_hotkey e st :
  (onkeydown e st = ([], st) ∨
   ∃ k h, (k ∈ keysToCheck e ∨ k = "") ∧
          hotkeys st !! k = Some (Some h) ∧
          unref (enabled h) (world st) = true ∧
          onkeydown e st =
            ([PreventDefault; OnPress h],
             {| hotkeys := hotkeys st; world := onPress h (world st) |})) ∧
  (∀ h, OnPress h ∈ (onkeydown e st).1 → unref (enabled h) (world st) = true) ∧
  (PreventDefault ∈ (onkeydown e st).1 ↔ ∃ h, OnPress h ∈ (onkeydown e st).1).
Proof.
  destruct (onkeydown_outcome e st)
    as [Hnone | (k & h & Hk & Hreg & Hen & _ & _ & Hfires)].
  - rewrite Hnone. simpl. split; [by left |]. split.
    + intros h Hin. by apply elem_of_nil in Hin.
    + split; [intros Hin | intros [h Hin]]; by apply elem_of_nil in Hin.
  - rewrite Hfires. simpl. split; [right; eauto 10 |]. split.
    + intros h' Hin. rewrite !elem_of_cons, elem_of_nil in Hin.
      destruct Hin as [Hin | [Hin | []]]; [discriminate | by injection Hin as ->].
    + split; [intros _; exists h; right; left | intros _; left].
Qed.

(** The first candidate that is a key of the registry decides: when it
    holds a hotkey that is disabled, nothing happens, whatever the later
    candidates hold. *)
Theorem disabled_match_hides_later_candidates e st pre k post h :
  keysToCheck e = pre ++ k :: post →
  (∀ k', k' ∈ pre → hotkeys st !! k' = None) →
  hotkeys st !! k = Some (Some h) →
  unref (enabled h) (world st) = false →
  onkeydown e st = ([], st).
Proof.
  intros Hkeys Hpre Hk Hen. unfold onkeydown.
  destruct (targets_input e); [done |].
  destruct (suspended (world st)); [done |].
  apply (dispatch_disabled _ _ h); [| done].
  rewrite Hkeys, lookup_hotkey_first; [| done | rewrite Hk; eauto].
  unfold get. by rewrite Hk.
Qed.

(** *** The registry across layer notifications *)

(** No notification ever takes a key out of the registry: a key that is
    there stays there, and every key of a layer that was added or removed
    is there afterwards (holding a definition or nothing). *)
Theorem notifications_never_delete_keys ns reg :
  (∀ k, is_Some (reg !! k) → is_Some (notify_all ns reg !! k)) ∧
  (∀ layer h, (LayerAdded layer ∈ ns ∨ LayerRemoved layer ∈ ns) → h ∈ layer →
              is_Some (notify_all ns reg !! hotkey_key h)).
Proof.
  split; [intros k; apply notify_all_keeps_key |].
  intros layer h Hn Hh.
  assert (Hsplit : ∃ n ns1 ns2, ns = ns1 ++ n :: ns2 ∧
                                is_Some (notify (notify_all ns1 reg) n !! hotkey_key h)).
  { destruct Hn as [Hn | Hn]; apply list_elem_of_split in Hn as (ns1 & ns2 & ->).
    - exists (LayerAdded layer), ns1, ns2. split; [done |].
      by apply addLayer_lookup_elem_of.
    - exists (LayerRemoved layer), ns1, ns2. split; [done |].
      simpl. rewrite removeLayer_lookup_elem_of; eauto. }
  destruct Hsplit as (n & ns1 & ns2 & -> & Hkey).
  change (n :: ns2) with ([n] ++ ns2).
  rewrite app_assoc, notify_all_app, notify_all_snoc.
  by apply notify_all_keeps_key.
Qed.

(** After "layer removed", a key-down that delivers the key of one of the
    layer's hotkeys, ctrl not held, does nothing: the key is cleared
    whoever registered the definition it held, and the cleared key is the
    first candidate. *)
Theorem removed_layer_keys_are_dead layer reg h e w :
  h ∈ layer → key e = hotkey_key h → ctrlKey e = false →
  get (removeLayer layer reg) (hotkey_key h) = None ∧
  onkeydown e {| hotkeys := removeLayer layer reg; world := w |} =
    ([], {| hotkeys := removeLayer layer reg; world := w |}).
Proof.
  intros Hin Hkey Hctrl.
  pose proof (removeLayer_lookup_elem_of layer reg h Hin) as Hreg.
  split; [unfold get; by rewrite Hreg |].
  unfold onkeydown.
  destruct (targets_input e); [done |].
  destruct (suspended _); [done |].
  destruct (keysToCheck_no_ctrl e Hctrl) as [keys ->].
  apply dispatch_cleared_first. simpl. by rewrite Hkey.
Qed.

(** After "layer added", a key-down that delivers a key the layer has a
    hotkey for, ctrl not held, fires the last definition the layer has for
    that key when it is enabled and the gates are open, whatever the
    registry held before. *)
Theorem added_layer_keys_fire layer reg h e w :
  last (filter (λ h', hotkey_key h' = key e) layer) = Some h →
  ctrlKey e = false →
  targets_input e = false → suspended w = false →
  unref (enabled h) w = true →
  onkeydown e {| hotkeys := addLayer layer reg; world := w |} =
    ([PreventDefault; OnPress h],
     {| hotkeys := addLayer layer reg; world := onPress h w |}).
Proof.
  intros Hlast Hctrl He Hs Hen.
  assert (Hreg : addLayer layer reg !! key e = Some (Some h))
    by (by rewrite addLayer_lookup, Hlast).
  rewrite onkeydown_open by done.
  apply dispatch_fires; [| done]. simpl.
  destruct (keysToCheck_no_ctrl e Hctrl) as [keys ->].
  rewrite lookup_hotkey_present by (rewrite Hreg; eauto).
  unfold get. by rewrite Hreg.
Qed.

(** Reloading a layer: adding a layer that was just removed gives the
    registry that adding it alone gives, adding a layer twice is adding it
    once, and removing a layer that was just added is removing it alone. *)
Theorem layer_reload layer reg :
  addLayer layer (removeLayer layer reg) = addLayer layer reg ∧
  addLayer layer (addLayer layer reg) = addLayer layer reg ∧
  removeLayer layer (addLayer layer reg) = removeLayer layer reg.
Proof.
  split; [| split]; apply map_eq; intros k.
  - rewrite !addLayer_lookup, removeLayer_lookup.
    destruct (last _) as [h|] eqn:Hlast; [done |].
    apply last_None in Hlast. by rewrite Hlast.
  - rewrite !addLayer_lookup. by destruct (last _).
  - rewrite !removeLayer_lookup, addLayer_lookup.
    destruct (filter _ layer) eqn:Hf; [| done]. done.
Qed.

(** Layers that share no key do not disturb each other: adding them in
    either order gives the same registry, and removing one commutes with
    adding the other. *)
Theorem disjoint_layers_commute layer1 layer2 reg :
  (∀ h1 h2, h1 ∈ layer1 → h2 ∈ layer2 → hotkey_key h1 ≠ hotkey_key h2) →
  addLayer layer1 (addLayer layer2 reg) = addLayer layer2 (addLayer layer1 reg) ∧
  removeLayer layer1 (addLayer layer2 reg) = addLayer layer2 (removeLayer layer1 reg).
Proof.
  intros Hdisjoint.
  assert (Hone : ∀ k h2,
    last (filter (λ h', hotkey_key h' = k) layer2) = Some h2 →
    filter (λ h', hotkey_key h' = k) layer1 = []).
  { intros k h2 Hlast. apply last_filter_key in Hlast as [Hin2 Hk2].
    destruct (filter _ layer1) as [|h1 l] eqn:Hf; [done |].
    assert (Hin1 : h1 ∈ filter (λ h', hotkey_key h' = k) layer1)
      by (rewrite Hf; left).
    apply list_elem_of_filter in Hin1 as [Hk1 Hin1].
    destruct (Hdisjoint h1 h2 Hin1 Hin2). congruence. }
  split; apply map_eq; intros k.
  - rewrite !addLayer_lookup.
    destruct (last (filter _ layer2)) as [h2|] eqn:Hlast2; [| done].
    by rewrite (Hone k h2 Hlast2).
  - rewrite removeLayer_lookup, !addLayer_lookup, removeLayer_lookup.
    destruct (last (filter _ layer2)) as [h2|] eqn:Hlast2; [| done].
    by rewrite (Hone k h2 Hlast2).
Qed.

Lemma notify_own_key reg n :
  (∀ k h, reg !! k = Some (Some h) → hotkey_key h = k) →
  ∀ k h, notify reg n !! k = Some (Some h) → hotkey_key h = k.
Proof.
  intros Hown k h. destruct n as [layer | layer]; simpl.
  - rewrite addLayer_lookup.
    destruct (last _) as [h'|] eqn:Hlast; [| apply Hown].
    intros [= <-]. by apply last_filter_key in Hlast as [_ Hk].
  - rewrite removeLayer_lookup.
    destruct (filter _ layer); [apply Hown | done].
Qed.

Lemma notify_all_own_key ns reg :
  (∀ k h, reg !! k = Some (Some h) → hotkey_key h = k) →
  ∀ k h, notify_all ns reg !! k = Some (Some h) → hotkey_key h = k.
Proof.
  intros Hown. induction ns as [|n ns IH] using rev_ind; [done |].
  rewrite notify_all_snoc. by apply notify_own_key.
Qed.

(** The handlers keep every definition under its own key: in a registry
    built by notifications, from the empty registry or from one in which
    this already holds, the definition found under a string has that string
    as its [key]. *)
Theorem registry_entries_under_own_key ns reg :
  (∀ k h, reg !! k = Some (Some h) → hotkey_key h = k) →
  (∀ k h, notify_all ns reg !! k = Some (Some h) → hotkey_key h = k) ∧
  (∀ k h, notify_all ns ∅ !! k = Some (Some h) → hotkey_key h = k).
Proof.
  intros Hown. split; [by apply notify_all_own_key |].
  apply notify_all_own_key. intros k h. by rewrite lookup_empty.
Qed.

(** *** Hotkeys made by [createHotkey] *)

(** [createHotkey] keeps the key and the action of its options: once the
    created hotkey is registered, a key-down that delivers its key, ctrl not
    held, runs the options' [onPress] on the world when [enabled] was left
    out; with [enabled: false] in the options no key-down ever invokes it. *)
Theorem created_hotkey_round_trip options :
  (opt_enabled options = None →
   ∀ reg e w, key e = opt_key options → ctrlKey e = false →
     targets_input e = false → suspended w = false →
     onkeydown e {| hotkeys := addLayer [createHotkey options] reg; world := w |} =
       ([PreventDefault; OnPress (createHotkey options)],
        {| hotkeys := addLayer [createHotkey options] reg;
           world := opt_onPress options w |})) ∧
  (opt_enabled options = Some (Plain false) →
   ∀ e st, OnPress (createHotkey options) ∉ (onkeydown e st).1).
Proof.
  split.
  - intros Hopt reg e w Hkey Hctrl He Hs.
    set (h := createHotkey options).
    assert (Hreg : addLayer [h] reg !! key e = Some (Some h)).
    { rewrite addLayer_lookup, filter_cons_True by (by rewrite Hkey).
      by rewrite filter_nil. }
    rewrite onkeydown_open by done.
    destruct (keysToCheck_no_ctrl e Hctrl) as [keys ->].
    unfold dispatch. simpl.
    rewrite lookup_hotkey_present by (rewrite Hreg; eauto).
    unfold get. rewrite Hreg. unfold h at 1, createHotkey. simpl.
    by rewrite Hopt.
  - intros Hopt e st Hin.
    destruct (onkeydown_outcome e st)
      as [Hnone | (k & h & _ & _ & Hen & _ & _ & Hfires)].
    + rewrite Hnone in Hin. by apply elem_of_nil in Hin.
    + rewrite Hfires in Hin. simpl in Hin.
      rewrite !elem_of_cons, elem_of_nil in Hin.
      destruct Hin as [Hin | [Hin | []]]; [discriminate |].
      injection Hin as <-.
      unfold createHotkey in Hen. simpl in Hen. by rewrite Hopt in Hen.
Qed.

(** *** The info component *)

Lemma info_keys_elem_of reg w entry :
  entry ∈ info_keys reg w ↔
  (∃ k, reg !! k = Some entry) ∧ entry_enabled w entry = true.
Proof.
  unfold info_keys.
  rewrite list_elem_of_In, List.filter_In, <- list_elem_of_In, list_elem_of_fmap.
  split.
  - intros [([k v] & -> & Hkv) Hen]. apply elem_of_map_to_list in Hkv. eauto.
  - intros [[k Hk] Hen]. split; [| done].
    exists (k, entry). split; [done |]. by apply elem_of_map_to_list.
Qed.

(** The info component lists, in some order, exactly the definitions that
    the registry holds and that are enabled in the current world; a cleared
    key gives no row; and it renders the empty string exactly when the
    registry holds no enabled definition. *)
Theorem info_component_lists_enabled_hotkeys reg w :
  (∀ h, Some h ∈ info_keys reg w ↔
        (∃ k, reg !! k = Some (Some h)) ∧ unref (enabled h) w = true) ∧
  (None ∉ info_keys reg w) ∧
  (info_component reg w = NoInfo ↔
     ∀ k h, reg !! k = Some (Some h) → unref (enabled h) w = false) ∧
  (info_component reg w ≠ NoInfo →
     info_component reg w = HotkeysBlock (info_keys reg w)).
Proof.
  split; [| split; [| split]].
  - intros h. apply info_keys_elem_of.
  - rewrite info_keys_elem_of. by intros [_ Hen].
  - unfold info_component.
    destruct (info_keys reg w) as [|entry keys] eqn:Hkeys; simpl.
    + split; [intros _ k h Hk | done].
      destruct (unref (enabled h) w) eqn:Hen; [| done].
      assert (Hin : Some h ∈ info_keys reg w)
        by (apply info_keys_elem_of; eauto).
      rewrite Hkeys in Hin. by apply elem_of_nil in Hin.
    + split; [done | intros Hnone; exfalso].
      assert (Hin : entry ∈ info_keys reg w) by (rewrite Hkeys; left).
      apply info_keys_elem_of in Hin as [[k Hk] Hen].
      destruct entry as [h|]; [| done].
      simpl in Hen. by rewrite (Hnone k h Hk) in Hen.
  - unfold info_component.
    by destruct (info_keys reg w) as [|entry keys].
Qed.

(** After "layer removed" the info component has no row for any hotkey
    whose key is a key of the removed layer, be it the layer's own hotkey or
    another layer's hotkey under the same key. *)
Theorem removed_layer_leaves_info_component layer reg w h h' :
  (∀ k h0, reg !! k = Some (Some h0) → hotkey_key h0 = k) →
  h ∈ layer → hotkey_key h' = hotkey_key h →
  Some h' ∉ info_keys (removeLayer layer reg) w.
Proof.
  intros Hown Hin Hkey Hlisted.
  apply info_keys_elem_of in Hlisted as [[k Hk] _].
  assert (Hk' : hotkey_key h' = k).
  { apply (notify_own_key reg (LayerRemoved layer) Hown). exact Hk. }
  rewrite <- Hk', Hkey, (removeLayer_lookup_elem_of layer reg h Hin) in Hk.
  discriminate.
Qed.

End Lifecycle.

(** ** The further theorems, at concrete presses *)

Section MoreRuns.

Import Game.

Lemma ctrl_symbol_never_probed_witness :
  ("ctrl+!" ∉ keysToCheck (press "!" false true)) ∧
  "ctrl+!" ∉ keysToCheck (press "1" false true).
Proof.
  split.
  - apply (ctrl_symbol_never_probed (press "!" false true) "!");
      [by apply includes_elem_of | discriminate].
  - apply (ctrl_symbol_never_probed (press "1" false true) "!");
      [by apply includes_elem_of | discriminate].
Defined.


Lemma only_input_elements_are_skipped_witness :
  let st := {| hotkeys := addLayer [scoring "x" 1] ∅; world := playing 0 |} in
  onkeydown (press_on "INPUT" "x") st = ([], st) ∧
  onkeydown (press_on "TEXTAREA" "x") st = onkeydown (press "x" false false) st.
Proof.
  intros st. split.
  - apply (proj1 (only_input_elements_are_skipped (press_on "INPUT" "x") st)
                 {| tagName := "INPUT" |}); reflexivity.
  - apply (proj2 (only_input_elements_are_skipped (press "x" false false) st)
                 (press_on "TEXTAREA" "x")); try reflexivity.
    + intros el Hel. discriminate Hel.
    + intros el Hel. injection Hel as <-. discriminate.
Defined.

Lemma keydown_fires_at_most_one_enabled_hotkey_witness :
  let st := {| hotkeys := addLayer [scoring "x" 1] ∅; world := playing 0 |} in
  unref (enabled (scoring "x" 1)) (playing 0) = true ∧
  PreventDefault ∈ (onkeydown (press "x" false false) st).1.
Proof.
  intros st.
  destruct (keydown_fires_at_most_one_enabled_hotkey (press "x" false false) st)
    as (_ & Henabled & Hprevent).
  split.
  - apply (Henabled (scoring "x" 1)). right. left.
  - apply Hprevent. exists (scoring "x" 1). right. left.
Defined.

Lemma disabled_match_hides_later_candidates_witness :
  let reg := addLayer [switched_off "!"; scoring "shift+1" 2] ∅ in
  onkeydown (press "!" true false) {| hotkeys := reg; world := playing 0 |} =
    ([], {| hotkeys := reg; world := playing 0 |}).
Proof.
  intros reg.
  apply (disabled_match_hides_later_candidates
           (press "!" true false) {| hotkeys := reg; world := playing 0 |}
           [] "!" ["shift+!"; "shift+1"] (switched_off "!")); try reflexivity.
  intros k Hk. by apply elem_of_nil in Hk.
Defined.

Lemma notifications_never_delete_keys_witness :
  let ns := [LayerAdded [scoring "a" 1]; LayerRemoved [scoring "b" 2];
             LayerRemoved [scoring "a" 1]] in
  is_Some (notify_all ns (addLayer [scoring "c" 3] ∅) !! "c") ∧
  is_Some (notify_all ns (addLayer [scoring "c" 3] ∅) !! "a") ∧
  is_Some (notify_all ns (addLayer [scoring "c" 3] ∅) !! "b").
Proof.
  intros ns.
  destruct (notifications_never_delete_keys ns (addLayer [scoring "c" 3] ∅))
    as [Hkept Hmentioned].
  split; [| split].
  - apply Hkept. by eexists.
  - apply (Hmentioned [scoring "a" 1] (scoring "a" 1)); [left; left | left].
  - apply (Hmentioned [scoring "b" 2] (scoring "b" 2)); [right; right; left | left].
Defined.

Lemma removed_layer_keys_are_dead_witness :
  let reg := addLayer [scoring "R" 2] (addLayer [scoring "R" 1] ∅) in
  get reg "R" = Some (scoring "R" 2) ∧
  onkeydown (press "R" true false)
            {| hotkeys := removeLayer [scoring "R" 1] reg; world := playing 0 |} =
    ([], {| hotkeys := removeLayer [scoring "R" 1] reg; world := playing 0 |}).
Proof.
  intros reg. split; [reflexivity |].
  apply (removed_layer_keys_are_dead [scoring "R" 1] reg (scoring "R" 1));
    [left | reflexivity | reflexivity].
Defined.

Lemma added_layer_keys_fire_witness :
  let reg := removeLayer [scoring "x" 1] ∅ in
  onkeydown (press "x" false false)
            {| hotkeys := addLayer [scoring "x" 1; scoring "x" 4] reg;
               world := playing 0 |} =
    ([PreventDefault; OnPress (scoring "x" 4)],
     {| hotkeys := addLayer [scoring "x" 1; scoring "x" 4] reg;
        world := playing 4 |}).
Proof.
  intros reg.
  apply (added_layer_keys_fire [scoring "x" 1; scoring "x" 4] reg (scoring "x" 4)
                               (press "x" false false) (playing 0)); reflexivity.
Defined.

Lemma disjoint_layers_commute_witness :
  let layer1 := [scoring "a" 1; scoring "b" 2] in
  let layer2 := [scoring "c" 3] in
  addLayer layer1 (addLayer layer2 ∅) = addLayer layer2 (addLayer layer1 ∅) ∧
  removeLayer layer1 (addLayer layer2 ∅) = addLayer layer2 (removeLayer layer1 ∅).
Proof.
  intros layer1 layer2.
  apply (disjoint_layers_commute layer1 layer2 ∅).
  intros h1 h2 Hin1 Hin2.
  apply list_elem_of_singleton in Hin2 as ->.
  repeat (apply elem_of_cons in Hin1 as [-> | Hin1]; [discriminate |]).
  by apply elem_of_nil in Hin1.
Defined.

Lemma created_hotkey_round_trip_witness :
  (onkeydown (press "x" false false)
             {| hotkeys := addLayer [scoring "x" 3] ∅; world := playing 0 |}).2 =
    {| hotkeys := addLayer [scoring "x" 3] ∅; world := gain 3 (playing 0) |} ∧
  OnPress (switched_off "x") ∉
    (onkeydown (press "x" false false)
               {| hotkeys := addLayer [switched_off "x"] ∅; world := playing 0 |}).1.
Proof.
  split.
  - rewrite (proj1 (created_hotkey_round_trip (scoring_options "x" 3)) eq_refl
                   ∅ (press "x" false false) (playing 0)); reflexivity.
  - apply (proj2 (created_hotkey_round_trip (switched_off_options "x")) eq_refl).
Defined.

Lemma info_component_lists_enabled_hotkeys_witness :
  let reg := removeLayer [scoring "z" 1]
               (addLayer [scoring "x" 1; switched_off "y"; scoring "z" 1] ∅) in
  Some (scoring "x" 1) ∈ info_keys reg (playing 0) ∧
  info_component reg (playing 0) = HotkeysBlock (info_keys reg (playing 0)).
Proof.
  intros reg.
  destruct (info_component_lists_enabled_hotkeys reg (playing 0))
    as (Hlisted & _ & _ & Hblock).
  split.
  - apply Hlisted. split; [by exists "x" | reflexivity].
  - apply Hblock. vm_compute. discriminate.
Defined.

Lemma registry_entries_under_own_key_witness :
  let ns := [LayerAdded [scoring "a" 1; scoring "b" 2]; LayerRemoved [scoring "b" 2]] in
  hotkey_key (scoring "c" 3) = "c" ∧ hotkey_key (scoring "a" 1) = "a".
Proof.
  intros ns.
  destruct (registry_entries_under_own_key ns (addLayer [scoring "c" 3] ∅))
    as [Hfrom Hfresh].
  - intros k h. rewrite addLayer_lookup.
    destruct (last _) as [h'|] eqn:Hlast; [| by rewrite lookup_empty].
    intros [= <-]. by apply last_filter_key in Hlast as [_ Hk].
  - split; [by apply Hfrom | by apply Hfresh].
Defined.

Lemma removed_layer_leaves_info_component_witness :
  let reg := addLayer [scoring "R" 2] (addLayer [scoring "R" 1; scoring "q" 1] ∅) in
  Some (scoring "R" 2) ∉ info_keys (removeLayer [scoring "R" 1] reg) (playing 0).
Proof.
  intros reg.
  apply (removed_layer_leaves_info_component
           [scoring "R" 1] reg (playing 0) (scoring "R" 1) (scoring "R" 2));
    [| left | reflexivity].
  apply (notify_all_own_key
           [LayerAdded [scoring "R" 1; scoring "q" 1]; LayerAdded [scoring "R" 2]] ∅).
  intros k h. by rewrite lookup_empty.
Defined.

End MoreRuns.
